(** * yart: the Git adapter, the version-transition validator and the release run

    A shallow embedding of [src/git/git.js] (class [Git]) together with a model
    of the validator exercised by [src/validate-transition.test.js] and of the
    release sequence that drives the adapter.

    JavaScript strings are sequences of UTF-16 code units; a code unit is an
    [N].  A subprocess call is an effect: programs are trees whose nodes are
    the calls they make, and a run interprets a tree against a world. *)

From Stdlib Require Import String Ascii List NArith ZArith Bool Lia.
From Stdlib Require Import Sorted Permutation DecimalN DecimalFacts.
Import ListNotations.

Set Implicit Arguments.

(* ------------------------------------------------------------------ *)
(** ** JavaScript strings and the few built-ins the adapter calls *)

Module JS.

Definition jsstring := list N.

(** A literal of the source, as code units. *)
Definition str (s : string) : jsstring :=
  map N_of_ascii (list_ascii_of_string s).

Definition streq (a b : jsstring) : bool :=
  if list_eq_dec N.eq_dec a b then true else false.

(** [!!x] on a string: the empty string is the only falsy one. *)
Definition truthy_string (x : jsstring) : bool :=
  match x with [] => false | _ :: _ => true end.

(** The class [\s] of a regular expression: WhiteSpace and LineTerminator
    (U+180E left the class with Unicode 6.3 and is not in it). *)
Definition is_space (c : N) : bool :=
  ((9 <=? c) && (c <=? 13)            (* TAB LF VT FF CR *)
   || (c =? 32) || (c =? 160)         (* SP, NBSP *)
   || (c =? 5760)                     (* U+1680 *)
   || ((8192 <=? c) && (c <=? 8202))  (* U+2000 .. U+200A *)
   || (c =? 8232) || (c =? 8233)      (* LS, PS *)
   || (c =? 8239) || (c =? 8287)      (* U+202F, U+205F *)
   || (c =? 12288) || (c =? 65279))%N (* U+3000, U+FEFF *).

(** [s.split(sep)] for a separator that matches exactly one code unit (a
    one-character string or a character class): one cut at every match; the
    pieces between two adjacent cuts, before the first and after the last are
    empty strings, and the empty string yields one empty piece. *)
Fixpoint split_by (sep : N -> bool) (s : jsstring) : list jsstring :=
  match s with
  | [] => [[]]
  | c :: s' =>
      if sep c then [] :: split_by sep s'
      else match split_by sep s' with
           | t :: ts => (c :: t) :: ts
           | [] => [[c]]
           end
  end.

(** [s.split(/\s/)] *)
Definition split_space : jsstring -> list jsstring := split_by is_space.

Fixpoint starts_with (pat s : jsstring) : bool :=
  match pat, s with
  | [], _ => true
  | _ :: _, [] => false
  | p :: pat', c :: s' => (p =? c)%N && starts_with pat' s'
  end.

(** [s.replace(pat, rep)] with a string pattern: the first occurrence of
    [pat] only.  The replacement is taken literally (the adapter passes ['']). *)
Fixpoint replace (s pat rep : jsstring) : jsstring :=
  if starts_with pat s then rep ++ skipn (List.length pat) s
  else match s with
       | [] => []
       | c :: s' => c :: replace s' pat rep
       end.

(** [xs.join(sep)] for a one-character separator. *)
Fixpoint join (sep : N) (xs : list jsstring) : jsstring :=
  match xs with
  | [] => []
  | [x] => x
  | x :: xs' => x ++ sep :: join sep xs'
  end.

(** The code unit of the letter v. *)
Definition v_code : N := 118.

(** [xs.includes(v)] on an array of strings. *)
Definition includes (xs : list jsstring) (v : jsstring) : bool :=
  existsb (streq v) xs.

(** What a [throw] carries: [new Error(msg)], or the [TypeError] the engine
    raises when a property is read from [undefined] or [null] (its message is
    the engine's and is not modelled). *)
Inductive exn : Type :=
| Error (msg : jsstring)
| TypeError.

Inductive result (A : Type) : Type :=
| Ok (a : A)
| Raise (e : exn).
Arguments Raise {A} e.

Definition raises {A} (r : result A) : Prop :=
  match r with Ok _ => False | Raise _ => True end.

End JS.
Import JS.

(* ------------------------------------------------------------------ *)
(** ** Subprocess calls as effects *)

(** [spawnSync(command, args, {cwd, encoding})]. *)
Record Invocation : Type := mkInvocation {
  command : jsstring;
  args : list jsstring;
  cwd : jsstring;
  encoding : option jsstring
}.

(** The object [spawnSync] returns, restricted to what callers can observe
    here: [status] is [null] when the process was killed by a signal or could
    not be spawned; [stdout] is [null] when it could not be spawned, and then
    [error] is set. *)
Record SpawnResult : Type := mkSpawnResult {
  status : option Z;
  stdout : option jsstring;
  error : bool
}.

(** [if (result.status)]: [null] and [0] are falsy. *)
Definition truthy_status (s : option Z) : bool :=
  match s with
  | None => false
  | Some z => negb (z =? 0)%Z
  end.

Inductive Event : Type :=
| SpawnSync (i : Invocation)
| ReplaceInFile (path old new : jsstring).

Inductive Prog (A : Type) : Type :=
| Ret (a : A)
| Throw (e : exn)
| Spawn (i : Invocation) (k : SpawnResult -> Prog A)
| Rewrite (path old new : jsstring) (k : bool -> Prog A).
Arguments Throw {A} e.

Fixpoint bind {A B} (p : Prog A) (f : A -> Prog B) : Prog B :=
  match p with
  | Ret a => f a
  | Throw e => Throw e
  | Spawn i k => Spawn i (fun r => bind (k r) f)
  | Rewrite path old new k => Rewrite path old new (fun b => bind (k b) f)
  end.

Notation "x <- p ;; q" := (bind p (fun x => q))
  (at level 61, p at next level, right associativity).
Notation "p ;;; q" := (bind p (fun _ => q))
  (at level 61, right associativity).

Definition lift {A} (r : result A) : Prog A :=
  match r with Ok a => Ret a | Raise e => Throw e end.

Module Eff.

Section Run.

Variable World : Type.
Variable spawnSync : Invocation -> World -> SpawnResult * World.
Variable replaceInFile : jsstring -> jsstring -> jsstring -> World -> bool * World.

(** A run: the calls made, in order, the world they leave and the outcome. *)
Fixpoint run {A} (p : Prog A) (w : World) : list Event * World * result A :=
  match p with
  | Ret a => ([], w, Ok a)
  | Throw e => ([], w, Raise e)
  | Spawn i k =>
      let '(r, w1) := spawnSync i w in
      let '(tr, w2, o) := run (k r) w1 in
      (SpawnSync i :: tr, w2, o)
  | Rewrite path old new k =>
      let '(b, w1) := replaceInFile path old new w in
      let '(tr, w2, o) := run (k b) w1 in
      (ReplaceInFile path old new :: tr, w2, o)
  end.

(** What the subprocess answers to [i] in world [w]. *)
Definition answer (i : Invocation) (w : World) : SpawnResult := fst (spawnSync i w).

(** [result.status] is truthy. *)
Definition failed (i : Invocation) (w : World) : Prop :=
  truthy_status (status (answer i w)) = true.

(** [result.status] is [null]. *)
Definition no_status (i : Invocation) (w : World) : Prop :=
  status (answer i w) = None.

Definition trace {A} (p : Prog A) (w : World) : list Event := fst (fst (run p w)).
Definition final {A} (p : Prog A) (w : World) : World := snd (fst (run p w)).
Definition outcome {A} (p : Prog A) (w : World) : result A := snd (run p w).

End Run.

End Eff.
Import Eff.

(* ------------------------------------------------------------------ *)
(** ** [class Git] of [src/git/git.js] *)

Module Git.

Definition git_call (dir : jsstring) (argv : list jsstring) : Invocation :=
  mkInvocation (str "git") argv dir None.

Definition git_call_utf8 (dir : jsstring) (argv : list jsstring) : Invocation :=
  mkInvocation (str "git") argv dir (Some (str "utf8")).

Definition tag_listing (dir : jsstring) : Invocation :=
  git_call_utf8 dir [str "tag"; str "--sort=-v:refname"].

Definition add (dir file : jsstring) : Prog unit :=
  Spawn (git_call dir [str "add"; file]) (fun result =>
    if truthy_status (status result) then Throw (Error (str "Could not add"))
    else Ret tt).

(** [x => x.replace('v', '')] *)
Definition drop_v (x : jsstring) : jsstring := replace x (str "v") (str "").

Definition versionExists (dir version : jsstring) : Prog bool :=
  Spawn (tag_listing dir) (fun result =>
    if truthy_status (status result) then Throw (Error (str "Could not get git tags"))
    else match stdout result with
         | None => Throw TypeError
         | Some out =>
             Ret (includes (map drop_v (filter truthy_string (split_space out))) version)
         end).

Definition latestVersion (dir : jsstring) : Prog jsstring :=
  Spawn (tag_listing dir) (fun result =>
    if truthy_status (status result) then Throw (Error (str "Could not get git tags"))
    else match stdout result with
         | None => Throw TypeError
         | Some out =>
             match find truthy_string (split_space out) with
             | None => Throw TypeError
             | Some x => Ret (drop_v x)
             end
         end).

Definition commit (dir message : jsstring) : Prog unit :=
  Spawn (git_call dir [str "commit"; str "-m"; message]) (fun result =>
    if truthy_status (status result) then Throw (Error (str "Could not commit"))
    else Ret tt).

Definition tag (dir version : jsstring) : Prog unit :=
  Spawn (git_call dir [str "tag"; str "-m"; str "Releasing version " ++ version;
                       str "v" ++ version]) (fun result =>
    if truthy_status (status result) then Throw (Error (str "Could not tag"))
    else Ret tt).

Definition push (dir : jsstring) : Prog unit :=
  Spawn (git_call dir [str "push"; str "--follow-tags"]) (fun result =>
    if truthy_status (status result) then Throw (Error (str "Could not push"))
    else Ret tt).

End Git.

(* ------------------------------------------------------------------ *)
(** ** SemVer and the version-transition validator *)

Module SemVer.

(** An ordered triple (major, minor, patch) of non-negative integers. *)
Record semver : Type := mkSemver { major : N; minor : N; patch : N }.

Definition eqb (a b : semver) : bool :=
  ((major a =? major b) && (minor a =? minor b) && (patch a =? patch b))%N.

(** SemVer ordering: by major, then minor, then patch. *)
Definition compare (a b : semver) : comparison :=
  match (major a ?= major b)%N with
  | Eq => match (minor a ?= minor b)%N with
          | Eq => (patch a ?= patch b)%N
          | c => c
          end
  | c => c
  end.

Definition leb (a b : semver) : bool :=
  match compare a b with Gt => false | _ => true end.

Definition le (a b : semver) : Prop := leb a b = true.

Definition max (a b : semver) : semver := if leb a b then b else a.

(** Decimal digits as code units, most significant first. *)
Fixpoint uint_codes (d : Decimal.uint) : jsstring :=
  match d with
  | Decimal.Nil => []
  | Decimal.D0 d => 48%N :: uint_codes d
  | Decimal.D1 d => 49%N :: uint_codes d
  | Decimal.D2 d => 50%N :: uint_codes d
  | Decimal.D3 d => 51%N :: uint_codes d
  | Decimal.D4 d => 52%N :: uint_codes d
  | Decimal.D5 d => 53%N :: uint_codes d
  | Decimal.D6 d => 54%N :: uint_codes d
  | Decimal.D7 d => 55%N :: uint_codes d
  | Decimal.D8 d => 56%N :: uint_codes d
  | Decimal.D9 d => 57%N :: uint_codes d
  end.

Definition digit (c : N) : option (Decimal.uint -> Decimal.uint) :=
  match c with
  | 48%N => Some Decimal.D0
  | 49%N => Some Decimal.D1
  | 50%N => Some Decimal.D2
  | 51%N => Some Decimal.D3
  | 52%N => Some Decimal.D4
  | 53%N => Some Decimal.D5
  | 54%N => Some Decimal.D6
  | 55%N => Some Decimal.D7
  | 56%N => Some Decimal.D8
  | 57%N => Some Decimal.D9
  | _ => None
  end.

Fixpoint codes_uint (s : jsstring) : option Decimal.uint :=
  match s with
  | [] => Some Decimal.Nil
  | c :: s' =>
      match digit c, codes_uint s' with
      | Some D, Some d => Some (D d)
      | _, _ => None
      end
  end.

(** Canonical decimal, no leading zeros. *)
Definition render_int (n : N) : jsstring := uint_codes (N.to_uint n).

(** An [<int>]: a non-empty run of decimal digits in canonical form. *)
Definition parse_int (s : jsstring) : option N :=
  match codes_uint s with
  | Some d => if Decimal.uint_beq d (Decimal.unorm d) then Some (N.of_uint d) else None
  | None => None
  end.

Definition dot : N := 46.

(** Modelled from the spec: the SemVer parser is not part of the sources at
    hand.  A string is a SemVer exactly when it matches [<int>.<int>.<int>]
    with no leading or trailing content. *)
Definition parse (s : jsstring) : option semver :=
  match split_by (N.eqb dot) s with
  | [a; b; c] =>
      match parse_int a, parse_int b, parse_int c with
      | Some M, Some m, Some p => Some (mkSemver M m p)
      | _, _, _ => None
      end
  | _ => None
  end.

Definition render (v : semver) : jsstring :=
  render_int (major v) ++ [dot] ++ render_int (minor v) ++ [dot] ++ render_int (patch v).

(** Successor computation from [current = (M, m, p)]. *)
Definition next_patch (v : semver) : semver := mkSemver (major v) (minor v) (patch v + 1).
Definition next_minor (v : semver) : semver := mkSemver (major v) (minor v + 1) 0.
Definition next_major (v : semver) : semver := mkSemver (major v + 1) 0 0.

Definition msg_version_required : jsstring := str "Please provide version".

Definition msg_existing_not_semver (current : jsstring) : jsstring :=
  str "Existing version " ++ current ++ str " is not semver".

Definition msg_not_semver (target : jsstring) : jsstring :=
  str "Version " ++ target ++ str " is not semver".

Definition msg_not_allowed (target : jsstring) (v : semver) : jsstring :=
  str "Version " ++ target ++ str " is not allowed. Use one of "
    ++ render (next_patch v) ++ str ", " ++ render (next_minor v) ++ str ", "
    ++ render (next_major v).

(** Modelled from the spec: [validate-transition.js] is not part of the
    sources at hand, only its test file is.  The cases are those of the
    validator's contract, tried in the order the contract lists them; the
    messages are the ones [validate-transition.test.js] expects. *)
Definition validateTransition (currentVersion requestedTarget : jsstring)
  : result jsstring :=
  if negb (truthy_string requestedTarget) then Raise (Error msg_version_required)
  else match parse currentVersion with
       | None => Raise (Error (msg_existing_not_semver currentVersion))
       | Some v =>
           if streq requestedTarget (str "patch") then Ok (render (next_patch v))
           else if streq requestedTarget (str "minor") then Ok (render (next_minor v))
           else if streq requestedTarget (str "major") then Ok (render (next_major v))
           else match parse requestedTarget with
                | None => Raise (Error (msg_not_semver requestedTarget))
                | Some t =>
                    if eqb t (next_patch v) || eqb t (next_minor v) || eqb t (next_major v)
                    then Ok requestedTarget
                    else Raise (Error (msg_not_allowed requestedTarget v))
                end
       end.

(** The resolution of the current version as the specification words it:
    strip the [v] prefix, keep the SemVer-parseable entries, take the maximum
    by SemVer ordering. *)
Definition strip_v_prefix (t : jsstring) : jsstring :=
  match t with
  | 118%N :: rest => rest
  | _ => t
  end.

Fixpoint keep_semver (ts : list jsstring) : list semver :=
  match ts with
  | [] => []
  | t :: ts' =>
      match parse t with
      | Some v => v :: keep_semver ts'
      | None => keep_semver ts'
      end
  end.

Definition resolve_spec (tags : list jsstring) : option jsstring :=
  match keep_semver (map strip_v_prefix tags) with
  | [] => None
  | v :: vs => Some (render (fold_left max vs v))
  end.

End SemVer.

(* ------------------------------------------------------------------ *)
(** ** The release run *)

Module Release.

Record Config : Type := mkConfig {
  dir : jsstring;
  target : jsstring;
  files : list jsstring;
  message : option jsstring;
  dryRun : bool;
  noPush : bool
}.

Definition default_message (next : jsstring) : jsstring :=
  str "Releasing version " ++ next.

(** Replace the current version by the next one in every configured file and
    stage the files that changed. *)
Fixpoint updateFiles (d current next : jsstring) (fs : list jsstring) : Prog unit :=
  match fs with
  | [] => Ret tt
  | f :: fs' =>
      Rewrite f current next (fun modified =>
        if modified then Git.add d f ;;; updateFiles d current next fs'
        else updateFiles d current next fs')
  end.

(** Modelled from the spec: the orchestrator is not part of the sources at
    hand.  Its steps run strictly in order (resolve the current version,
    validate the transition, update and stage files, commit, tag, push), the
    first failure ends the run, a dry run skips every step after validation
    and the no-push flag skips the push.  The adapter is [class Git]. *)
Definition release (c : Config) : Prog jsstring :=
  current <- Git.latestVersion (dir c) ;;
  next <- lift (SemVer.validateTransition current (target c)) ;;
  if dryRun c then Ret next
  else
    updateFiles (dir c) current next (files c) ;;;
    Git.commit (dir c)
      (match message c with Some m => m | None => default_message next end) ;;;
    Git.tag (dir c) next ;;;
    (if noPush c then Ret tt else Git.push (dir c)) ;;;
    Ret next.

(** The adapter operations that change the repository: [git add],
    [git commit], [git tag -m] and [git push]; rewriting a file changes the
    working tree. *)
Definition mutating_args (argv : list jsstring) : bool :=
  match argv with
  | a :: b :: _ =>
      streq a (str "add") || streq a (str "commit")
      || (streq a (str "tag") && streq b (str "-m")) || streq a (str "push")
  | _ => false
  end.

Definition mutating (e : Event) : bool :=
  match e with
  | SpawnSync i => mutating_args (args i)
  | ReplaceInFile _ _ _ => true
  end.

End Release.

(* ------------------------------------------------------------------ *)
(** ** Small worlds to run programs in *)

(** Every subprocess call answers [r]; every file is reported modified. *)
Definition const_spawn (r : SpawnResult) (i : Invocation) (w : unit) : SpawnResult * unit :=
  (r, w).

Definition const_rewrite (path old new : jsstring) (w : unit) : bool * unit :=
  (true, w).

(** A successful [git tag] listing that prints [out]; every other call
    succeeds silently. *)
Definition listing_spawn (out : jsstring) (i : Invocation) (w : unit) : SpawnResult * unit :=
  (mkSpawnResult (Some 0%Z) (Some out) false, w).

Definition newline : N := 10.

Definition lines (ts : list jsstring) : jsstring :=
  List.concat (map (fun t => t ++ [newline]) ts).

(** A repository whose only tag is [v1.0.0]. *)
Definition one_tag_world : Invocation -> unit -> SpawnResult * unit :=
  listing_spawn (lines [str "v1.0.0"]).

Definition request (target : jsstring) (dry : bool) : Release.Config :=
  Release.mkConfig (str ".") target [str "README.md"] None dry false.

(** The subprocess could not be spawned. *)
Definition unspawned : SpawnResult := mkSpawnResult None None true.

(** Exit status 0 and nothing printed. *)
Definition silent : SpawnResult := mkSpawnResult (Some 0%Z) (Some (str "")) false.

(** The listing a [git tag] call prints for the versions [vs], in order. *)
Definition listing_of (vs : list SemVer.semver) : jsstring :=
  lines (map (fun x => str "v" ++ SemVer.render x) vs).

(** A string without white space, and a tag name as a listing can show it:
    not empty and without white space. *)
Definition spaceless (t : jsstring) : Prop := Forall (fun c => is_space c = false) t.

Definition tag_like (t : jsstring) : Prop := t <> [] /\ spaceless t.

(** What is left of the output after a token: nothing, or something that
    starts with white space. *)
Definition token_end (rest : jsstring) : Prop :=
  match rest with
  | [] => True
  | c :: _ => is_space c = true
  end.

(** Every file is reported modified, in any world. *)
Definition rewrite_all (W : Type) (path old new : jsstring) (w : W) : bool * W :=
  (true, w).

(** A repository that lists [a] in the world [true] and [b] in the world
    [false]. *)
Definition two_listings (a b : jsstring) (i : Invocation) (w : bool)
  : SpawnResult * bool :=
  (mkSpawnResult (Some 0%Z) (Some (if w then a else b)) false, w).

Import SemVer Release.

(* ------------------------------------------------------------------ *)
(** ** Facts about the string built-ins *)

Lemma streq_true_iff (a b : jsstring) : streq a b = true <-> a = b.
Proof.
  unfold streq. destruct (list_eq_dec N.eq_dec a b); split; congruence.
Qed.

Lemma streq_refl (a : jsstring) : streq a a = true.
Proof. now apply streq_true_iff. Qed.

Lemma split_by_clean (sep : N -> bool) (a : jsstring) :
  Forall (fun c => sep c = false) a -> split_by sep a = [a].
Proof.
  induction a as [|c a IH]; simpl; intros H; [reflexivity|].
  inversion H as [|? ? Hc Ha]; subst. now rewrite Hc, IH.
Qed.

Lemma split_by_cut (sep : N -> bool) (a : jsstring) (c : N) (rest : jsstring) :
  Forall (fun c => sep c = false) a -> sep c = true ->
  split_by sep (a ++ c :: rest) = a :: split_by sep rest.
Proof.
  induction a as [|x a IH]; simpl; intros H Hc.
  - now rewrite Hc.
  - inversion H as [|? ? Hx Ha]; subst. now rewrite Hx, IH.
Qed.

Lemma split_by_nonempty (sep : N -> bool) (s : jsstring) : split_by sep s <> [].
Proof.
  destruct s as [|c s]; simpl; [discriminate|].
  destruct (sep c); [discriminate|]. destruct (split_by sep s); discriminate.
Qed.

(** Every piece of a split is free of separators. *)
Lemma split_by_pieces (sep : N -> bool) (s : jsstring) :
  Forall (Forall (fun c => sep c = false)) (split_by sep s).
Proof.
  induction s as [|c s IH]; simpl.
  - repeat constructor.
  - destruct (sep c) eqn:Hc.
    + constructor; [constructor | exact IH].
    + destruct (split_by sep s) as [|t ts]; [repeat constructor; assumption|].
      inversion IH as [|? ? Ht Hts]; subst.
      constructor; [constructor; assumption | assumption].
Qed.

(** A string made of separators only splits into empty pieces. *)
Lemma split_by_all_sep (sep : N -> bool) (s : jsstring) :
  Forall (fun c => sep c = true) s ->
  filter truthy_string (split_by sep s) = [].
Proof.
  induction s as [|c s IH]; simpl; intros H; [reflexivity|].
  inversion H as [|? ? Hc Hs]; subst. rewrite Hc. simpl. now apply IH.
Qed.

Lemma find_filter_nil (xs : list jsstring) :
  filter truthy_string xs = [] -> find truthy_string xs = None.
Proof.
  induction xs as [|x xs IH]; simpl; [reflexivity|].
  destruct (truthy_string x); [discriminate | exact IH].
Qed.

Lemma find_filter_head (xs : list jsstring) :
  find truthy_string xs = hd_error (filter truthy_string xs).
Proof.
  induction xs as [|x xs IH]; simpl; [reflexivity|].
  destruct (truthy_string x); [reflexivity | exact IH].
Qed.

Lemma str_v : str "v" = [v_code].
Proof. reflexivity. Qed.

Lemma drop_v_cons (c : N) (s : jsstring) :
  Git.drop_v (c :: s) = if (v_code =? c)%N then s else c :: Git.drop_v s.
Proof.
  unfold Git.drop_v. rewrite str_v.
  change (replace (c :: s) [v_code] (str ""))
    with (if (v_code =? c)%N && true then s else c :: replace s [v_code] (str "")).
  now rewrite andb_true_r.
Qed.

Lemma drop_v_absent (s : jsstring) : ~ In v_code s -> Git.drop_v s = s.
Proof.
  induction s as [|c s IH]; intros H; [reflexivity|].
  rewrite drop_v_cons. destruct (N.eqb_spec v_code c) as [E|E].
  - exfalso. apply H. left. now symmetry.
  - f_equal. apply IH. intros Hin. apply H. now right.
Qed.

Lemma drop_v_first (pre post : jsstring) :
  ~ In v_code pre -> Git.drop_v (pre ++ v_code :: post) = pre ++ post.
Proof.
  induction pre as [|c pre IH]; intros H.
  - simpl. rewrite drop_v_cons. now rewrite N.eqb_refl.
  - simpl. rewrite drop_v_cons. destruct (N.eqb_spec v_code c) as [E|E].
    + exfalso. apply H. left. now symmetry.
    + f_equal. apply IH. intros Hin. apply H. now right.
Qed.

Lemma Forall_not_In (s : jsstring) (c : N) :
  Forall (fun x => x <> c) s -> ~ In c s.
Proof.
  intros H Hin. rewrite Forall_forall in H. exact (H c Hin eq_refl).
Qed.

(* ------------------------------------------------------------------ *)
(** ** Facts about SemVer strings *)

Ltac by_digits d := induction d; simpl; constructor; auto; try discriminate.

Lemma uint_codes_no_dot d : Forall (fun c => N.eqb dot c = false) (uint_codes d).
Proof. by_digits d. Qed.

Lemma uint_codes_no_space d : Forall (fun c => is_space c = false) (uint_codes d).
Proof. by_digits d. Qed.

Lemma uint_codes_no_v d : Forall (fun c => c <> v_code) (uint_codes d).
Proof. by_digits d. Qed.

Lemma codes_uint_uint_codes d : codes_uint (uint_codes d) = Some d.
Proof. induction d; simpl; try rewrite IHd; reflexivity. Qed.

Lemma to_uint_normal (n : N) : Decimal.unorm (N.to_uint n) = N.to_uint n.
Proof.
  rewrite <- (DecimalN.Unsigned.of_to n) at 2.
  now rewrite DecimalN.Unsigned.to_of.
Qed.

Lemma parse_int_render_int (n : N) : parse_int (render_int n) = Some n.
Proof.
  unfold parse_int, render_int. rewrite codes_uint_uint_codes, to_uint_normal.
  rewrite (Decimal.internal_uint_dec_lb _ _ eq_refl).
  now rewrite DecimalN.Unsigned.of_to.
Qed.

Lemma parse_render (v : semver) : parse (render v) = Some v.
Proof.
  destruct v as [M m p]. unfold parse, render; simpl.
  rewrite split_by_cut by (apply uint_codes_no_dot || reflexivity).
  rewrite split_by_cut by (apply uint_codes_no_dot || reflexivity).
  rewrite split_by_clean by apply uint_codes_no_dot.
  now rewrite !parse_int_render_int.
Qed.

(** Splitting at one character and joining with it gives the string back. *)
Lemma join_split_by (x : N) (s : jsstring) : join x (split_by (N.eqb x) s) = s.
Proof.
  induction s as [|c s IH]; [reflexivity|].
  pose proof (split_by_nonempty (N.eqb x) s) as Hne.
  cbn [split_by]. destruct (split_by (N.eqb x) s) as [|t ts]; [now elim Hne|].
  destruct (N.eqb_spec x c) as [->|Hc].
  - change (join c ([] :: t :: ts)) with (c :: join c (t :: ts)). now rewrite IH.
  - destruct ts as [|t' ts]; cbn [join app] in *; now rewrite IH.
Qed.

Lemma digit_codes (c : N) (D : Decimal.uint -> Decimal.uint) (d : Decimal.uint) :
  digit c = Some D -> uint_codes (D d) = c :: uint_codes d.
Proof.
  destruct c as [|q]; [discriminate|].
  do 7 (try destruct q as [q|q|]); try discriminate;
    intros H; injection H as <-; reflexivity.
Qed.

Lemma uint_codes_codes_uint (s : jsstring) (d : Decimal.uint) :
  codes_uint s = Some d -> uint_codes d = s.
Proof.
  revert d. induction s as [|c s IH]; simpl; intros d H.
  - now injection H as <-.
  - destruct (digit c) as [D|] eqn:HD; [|discriminate].
    destruct (codes_uint s) as [d'|]; [|discriminate].
    injection H as <-. rewrite (digit_codes _ _ HD). f_equal. now apply IH.
Qed.

(** An accepted number is written canonically: rendering gives it back. *)
Lemma render_int_parse_int (s : jsstring) (n : N) :
  parse_int s = Some n -> render_int n = s.
Proof.
  unfold parse_int, render_int. destruct (codes_uint s) as [d|] eqn:E; [|discriminate].
  destruct (Decimal.uint_beq d (Decimal.unorm d)) eqn:B; [|discriminate].
  intros H. injection H as <-.
  rewrite DecimalN.Unsigned.to_of.
  rewrite <- (Decimal.internal_uint_dec_bl _ _ B).
  now apply uint_codes_codes_uint.
Qed.

(** The strings that parse are exactly the renderings of the triples. *)
Lemma render_parse (s : jsstring) (v : semver) : parse s = Some v -> render v = s.
Proof.
  unfold parse. pose proof (join_split_by dot s) as J.
  destruct (split_by (N.eqb dot) s) as [|a [|b [|c [|? ?]]]]; try discriminate.
  destruct (parse_int a) as [M|] eqn:HM; [|discriminate].
  destruct (parse_int b) as [m|] eqn:Hm; [|discriminate].
  destruct (parse_int c) as [p|] eqn:Hp; [|discriminate].
  intros H. injection H as <-. unfold render; simpl.
  rewrite (render_int_parse_int _ HM), (render_int_parse_int _ Hm),
    (render_int_parse_int _ Hp).
  exact J.
Qed.

Lemma eqb_eq (a b : semver) : eqb a b = true <-> a = b.
Proof.
  destruct a as [M m p], b as [M' m' p']. unfold eqb; simpl.
  rewrite !andb_true_iff, !N.eqb_eq. split.
  - intros [[-> ->] ->]. reflexivity.
  - intros H. injection H as -> -> ->. auto.
Qed.

Lemma eqb_neq (a b : semver) : eqb a b = false <-> a <> b.
Proof.
  rewrite <- eqb_eq. destruct (eqb a b); split; congruence.
Qed.

Lemma parse_nonempty (s : jsstring) (v : semver) :
  parse s = Some v -> truthy_string s = true.
Proof. destruct s; [discriminate | reflexivity]. Qed.

(** A SemVer string is none of the three keywords. *)
Lemma parse_not_keyword (s : jsstring) (v : semver) :
  parse s = Some v ->
  streq s (str "patch") = false /\ streq s (str "minor") = false
  /\ streq s (str "major") = false.
Proof.
  intros H. repeat split.
  all: destruct (streq s _) eqn:E; [|reflexivity].
  all: apply streq_true_iff in E; subst s; discriminate H.
Qed.

Lemma render_nonempty (v : semver) : truthy_string (render v) = true.
Proof. exact (parse_nonempty _ (parse_render v)). Qed.

(* ------------------------------------------------------------------ *)
(** ** The validator *)

Lemma validateTransition_keyword (current : jsstring) (v : semver) :
  parse current = Some v ->
  validateTransition current (str "patch") = Ok (render (next_patch v))
  /\ validateTransition current (str "minor") = Ok (render (next_minor v))
  /\ validateTransition current (str "major") = Ok (render (next_major v)).
Proof.
  intros H. unfold validateTransition. rewrite H. repeat split.
Qed.

(** An explicit target that parses is accepted exactly when it is one of the
    three successors, and is then returned as it was given. *)
Lemma validateTransition_explicit (current target : jsstring) (v t : semver) :
  parse current = Some v -> parse target = Some t ->
  validateTransition current target =
    if eqb t (next_patch v) || eqb t (next_minor v) || eqb t (next_major v)
    then Ok target
    else Raise (Error (msg_not_allowed target v)).
Proof.
  intros Hc Ht. unfold validateTransition.
  rewrite (parse_nonempty _ Ht), Hc. simpl.
  destruct (parse_not_keyword _ Ht) as (-> & -> & ->).
  now rewrite Ht.
Qed.

Lemma validateTransition_successor (current : jsstring) (v t : semver) :
  parse current = Some v ->
  t = next_patch v \/ t = next_minor v \/ t = next_major v ->
  validateTransition current (render t) = Ok (render t).
Proof.
  intros Hc Ht.
  rewrite (validateTransition_explicit _ _ Hc (parse_render t)).
  assert (E : eqb t (next_patch v) || eqb t (next_minor v) || eqb t (next_major v) = true).
  { rewrite !orb_true_iff, !eqb_eq. tauto. }
  now rewrite E.
Qed.

(** C1.  For every current version that parses as the SemVer (M, m, p), the
    validator returns (M, m, p+1) for the target "patch", (M, m+1, 0) for
    "minor" and (M+1, 0, 0) for "major"; and given one of these three versions
    as an explicit string, it returns that same string. *)
Theorem validateTransition_successors (current : jsstring) (M m p : N) :
  parse current = Some (mkSemver M m p) ->
  (validateTransition current (str "patch") = Ok (render (mkSemver M m (p + 1)))
   /\ validateTransition current (str "minor") = Ok (render (mkSemver M (m + 1) 0))
   /\ validateTransition current (str "major") = Ok (render (mkSemver (M + 1) 0 0)))
  /\ (validateTransition current (render (mkSemver M m (p + 1)))
        = Ok (render (mkSemver M m (p + 1)))
      /\ validateTransition current (render (mkSemver M (m + 1) 0))
        = Ok (render (mkSemver M (m + 1) 0))
      /\ validateTransition current (render (mkSemver (M + 1) 0 0))
        = Ok (render (mkSemver (M + 1) 0 0))).
Proof.
  intros H. split.
  - exact (validateTransition_keyword _ H).
  - repeat split; apply (validateTransition_successor _ H); unfold next_patch,
      next_minor, next_major; simpl; auto.
Qed.

Lemma validateTransition_successors_witness :
  parse (str "1.2.3") = Some (mkSemver 1 2 3)
  /\ validateTransition (str "1.2.3") (str "patch") = Ok (str "1.2.4")
  /\ validateTransition (str "1.2.3") (str "1.3.0") = Ok (str "1.3.0").
Proof.
  pose proof (@validateTransition_successors (str "1.2.3") 1 2 3 eq_refl) as H.
  split; [reflexivity|]. split.
  - exact (proj1 (proj1 H)).
  - exact (proj1 (proj2 (proj2 H))).
Defined.

(** C2.  For every current version that parses as SemVer and every explicit
    target that parses as SemVer and is none of the three successors of the
    current version, the validator fails, and its message lists the three
    successors in patch, minor, major order. *)
Theorem validateTransition_gap_rejected (current target : jsstring) (v t : semver) :
  parse current = Some v -> parse target = Some t ->
  t <> next_patch v -> t <> next_minor v -> t <> next_major v ->
  validateTransition current target =
    Raise (Error (str "Version " ++ target ++ str " is not allowed. Use one of "
                    ++ render (mkSemver (major v) (minor v) (patch v + 1)) ++ str ", "
                    ++ render (mkSemver (major v) (minor v + 1) 0) ++ str ", "
                    ++ render (mkSemver (major v + 1) 0 0))).
Proof.
  intros Hc Ht Hp Hm HM.
  rewrite (validateTransition_explicit _ _ Hc Ht).
  apply eqb_neq in Hp, Hm, HM. now rewrite Hp, Hm, HM.
Qed.

Lemma validateTransition_gap_rejected_witness :
  validateTransition (str "1.0.0") (str "1.0.2") =
    Raise (Error (str "Version 1.0.2 is not allowed. Use one of 1.0.1, 1.1.0, 2.0.0")).
Proof.
  apply (@validateTransition_gap_rejected (str "1.0.0") (str "1.0.2")
           (mkSemver 1 0 0) (mkSemver 1 0 2)).
  - reflexivity.
  - reflexivity.
  - discriminate.
  - discriminate.
  - discriminate.
Defined.

(** The current version itself, and everything below it, is never one of its
    successors. *)
Lemma not_above_not_successor (v t : semver) :
  le t v -> t <> next_patch v /\ t <> next_minor v /\ t <> next_major v.
Proof.
  destruct v as [M m p], t as [M' m' p']. unfold le, leb, compare; simpl.
  intros H. repeat split; intros E; injection E as -> -> ->; revert H.
  - rewrite !N.compare_refl. destruct (N.compare_spec (p + 1) p); try lia; discriminate.
  - rewrite N.compare_refl. destruct (N.compare_spec (m + 1) m); try lia; discriminate.
  - destruct (N.compare_spec (M + 1) M); try lia; discriminate.
Qed.

Lemma le_refl (v : semver) : le v v.
Proof. unfold le, leb, compare. now rewrite !N.compare_refl. Qed.

(** C6.  For every current version that does not parse as SemVer and every
    non-empty target, the validator fails naming the current version as not
    being SemVer, whatever the target is. *)
Theorem validateTransition_current_invalid (current target : jsstring) :
  parse current = None -> target <> str "" ->
  validateTransition current target =
    Raise (Error (str "Existing version " ++ current ++ str " is not semver")).
Proof.
  intros Hc Ht. unfold validateTransition.
  destruct target as [|c target]; [now elim Ht|]. simpl. now rewrite Hc.
Qed.

Lemma validateTransition_current_invalid_witness :
  validateTransition (str "1.0.c") (str "1.0.1") =
    Raise (Error (str "Existing version 1.0.c is not semver"))
  /\ validateTransition (str "not-semver") (str "patch") =
    Raise (Error (str "Existing version not-semver is not semver")).
Proof.
  split.
  - apply (@validateTransition_current_invalid (str "1.0.c") (str "1.0.1"));
      [reflexivity | discriminate].
  - apply (@validateTransition_current_invalid (str "not-semver") (str "patch"));
      [reflexivity | discriminate].
Defined.

(** C7.  For every current version, SemVer or not, the validator fails on the
    empty target asking for a version. *)
Theorem validateTransition_empty_target (current : jsstring) :
  validateTransition current (str "") = Raise (Error (str "Please provide version")).
Proof. reflexivity. Qed.

Lemma render_no_space (v : semver) : Forall (fun c => is_space c = false) (render v).
Proof.
  unfold render. repeat (apply Forall_app; split);
    solve [apply uint_codes_no_space | repeat constructor].
Qed.

(* ------------------------------------------------------------------ *)
(** ** Listings of SemVer tags *)

Lemma listing_of_cons (v : semver) (vs : list semver) :
  listing_of (v :: vs) = (v_code :: render v) ++ newline :: listing_of vs.
Proof.
  unfold listing_of, lines. simpl. now rewrite <- app_assoc.
Qed.

Lemma tags_of_listing (vs : list semver) :
  filter truthy_string (split_space (listing_of vs))
  = map (fun x => v_code :: render x) vs.
Proof.
  induction vs as [|v vs IH]; [reflexivity|].
  rewrite listing_of_cons. unfold split_space.
  rewrite (@split_by_cut is_space (v_code :: render v) newline)
    by first [reflexivity | constructor; [reflexivity | apply render_no_space]].
  simpl. f_equal. exact IH.
Qed.

Lemma keep_semver_rendered (vs : list semver) :
  keep_semver (map strip_v_prefix (map (fun x => v_code :: render x) vs)) = vs.
Proof.
  induction vs as [|v vs IH]; simpl; [reflexivity|].
  now rewrite parse_render, IH.
Qed.

Lemma le_antisym (a b : semver) : le a b -> le b a -> a = b.
Proof.
  destruct a as [M m p], b as [M' m' p']. unfold le, leb, compare; simpl.
  destruct (N.compare_spec M M'), (N.compare_spec M' M); try lia; try discriminate.
  subst M'.
  destruct (N.compare_spec m m'), (N.compare_spec m' m); try lia; try discriminate.
  subst m'.
  destruct (N.compare_spec p p'), (N.compare_spec p' p); try lia; try discriminate.
  subst p'. reflexivity.
Qed.

Lemma fold_max_head (vs : list semver) (v : semver) :
  Forall (fun x => le x v) vs -> fold_left max vs v = v.
Proof.
  induction vs as [|x vs IH]; simpl; intros H; [reflexivity|].
  inversion H as [|? ? Hx Hvs]; subst.
  assert (E : max v x = v).
  { unfold max. destruct (leb v x) eqn:L; [|reflexivity]. now apply le_antisym. }
  rewrite E. now apply IH.
Qed.

(** On a descending listing of SemVer tags the specification's resolution
    (strip, keep the SemVer entries, take the maximum) is the first entry. *)
Lemma resolve_spec_descending (v : semver) (vs : list semver) :
  StronglySorted (fun a b => le b a) (v :: vs) ->
  resolve_spec (filter truthy_string (split_space (listing_of (v :: vs))))
  = Some (render v).
Proof.
  intros H. rewrite tags_of_listing. unfold resolve_spec.
  rewrite keep_semver_rendered. apply StronglySorted_inv in H.
  now rewrite fold_max_head.
Qed.

(* ------------------------------------------------------------------ *)
(** ** The Git adapter *)

Section Adapter.

Variable World : Type.
Variable spawnSync : Invocation -> World -> SpawnResult * World.
Variable replaceInFile : jsstring -> jsstring -> jsstring -> World -> bool * World.

Local Abbreviation run := (run spawnSync replaceInFile) (only parsing).
Local Abbreviation trace := (trace spawnSync replaceInFile) (only parsing).
Local Abbreviation final := (final spawnSync replaceInFile) (only parsing).
Local Abbreviation outcome := (outcome spawnSync replaceInFile) (only parsing).
Local Abbreviation answer := (answer spawnSync) (only parsing).
Local Abbreviation failed := (failed spawnSync) (only parsing).
Local Abbreviation no_status := (no_status spawnSync) (only parsing).

Lemma run_Spawn A (i : Invocation) (k : SpawnResult -> Prog A) (w : World) :
  run (Spawn i k) w =
    (SpawnSync i :: trace (k (answer i w)) (snd (spawnSync i w)),
     final (k (answer i w)) (snd (spawnSync i w)),
     outcome (k (answer i w)) (snd (spawnSync i w))).
Proof.
  unfold Eff.answer, Eff.trace, Eff.final, Eff.outcome. simpl.
  destruct (spawnSync i w) as [r w1]; simpl.
  destruct (Eff.run spawnSync replaceInFile (k r) w1) as [[tr w2] o].
  reflexivity.
Qed.

Lemma outcome_Spawn A (i : Invocation) (k : SpawnResult -> Prog A) (w : World) :
  outcome (Spawn i k) w = outcome (k (answer i w)) (snd (spawnSync i w)).
Proof. unfold Eff.outcome at 1. now rewrite run_Spawn. Qed.

Lemma trace_Spawn A (i : Invocation) (k : SpawnResult -> Prog A) (w : World) :
  trace (Spawn i k) w = SpawnSync i :: trace (k (answer i w)) (snd (spawnSync i w)).
Proof. unfold Eff.trace at 1. now rewrite run_Spawn. Qed.

(** The four operations that only look at the exit status. *)
Lemma outcome_status_only (i : Invocation) (msg : jsstring) (w : World) :
  outcome (Spawn i (fun result =>
             if truthy_status (status result) then Throw (Error msg) else Ret tt)) w
  = if truthy_status (status (answer i w)) then Raise (Error msg) else Ok tt.
Proof.
  rewrite outcome_Spawn. destruct (truthy_status (status (answer i w))); reflexivity.
Qed.

Lemma raises_status_only (i : Invocation) (msg : jsstring) (w : World) :
  raises (outcome (Spawn i (fun result =>
             if truthy_status (status result) then Throw (Error msg) else Ret tt)) w)
  <-> truthy_status (status (answer i w)) = true.
Proof.
  rewrite outcome_status_only.
  destruct (truthy_status (status (answer i w))); simpl; split; auto; discriminate.
Qed.

Lemma outcome_latestVersion (dir : jsstring) (w : World) :
  outcome (Git.latestVersion dir) w =
    let result := answer (Git.tag_listing dir) w in
    if truthy_status (status result) then Raise (Error (str "Could not get git tags"))
    else match stdout result with
         | None => Raise TypeError
         | Some out =>
             match find truthy_string (split_space out) with
             | None => Raise TypeError
             | Some x => Ok (Git.drop_v x)
             end
         end.
Proof.
  unfold Git.latestVersion. rewrite outcome_Spawn. simpl.
  destruct (truthy_status _); [reflexivity|].
  destruct (stdout _) as [out|]; [|reflexivity].
  destruct (find _ _); reflexivity.
Qed.

Lemma outcome_versionExists (dir version : jsstring) (w : World) :
  outcome (Git.versionExists dir version) w =
    let result := answer (Git.tag_listing dir) w in
    if truthy_status (status result) then Raise (Error (str "Could not get git tags"))
    else match stdout result with
         | None => Raise TypeError
         | Some out =>
             Ok (includes (map Git.drop_v (filter truthy_string (split_space out)))
                   version)
         end.
Proof.
  unfold Git.versionExists. rewrite outcome_Spawn. simpl.
  destruct (truthy_status _); [reflexivity|].
  destruct (stdout _) as [out|]; reflexivity.
Qed.

(** C8.  For every version X, the tag operation makes one subprocess call,
    [git tag -m "Releasing version X" vX] in the adapter's directory: an
    annotated tag named [v] followed by X whose message is "Releasing
    version X". *)
Theorem tag_invocation (dir X : jsstring) (w : World) :
  trace (Git.tag dir X) w =
    [SpawnSync {| command := str "git";
                  args := [str "tag"; str "-m"; str "Releasing version " ++ X;
                           str "v" ++ X];
                  cwd := dir;
                  encoding := None |}].
Proof. unfold Git.tag. rewrite trace_Spawn. destruct (truthy_status _); reflexivity. Qed.

(** C9, as amended.  [add], [commit], [tag] and [push] raise exactly when the
    exit status of their subprocess is truthy; [latestVersion] and
    [versionExists] raise "Could not get git tags" exactly when it is; and
    when the status is [null], as it is when the subprocess could not be
    spawned, [add], [commit], [tag] and [push] return normally. *)
Theorem adapter_raises_on_status (dir file message version : jsstring) (w : World) :
  ((raises (outcome (Git.add dir file) w)
    <-> failed (Git.git_call dir [str "add"; file]) w)
   /\ (raises (outcome (Git.commit dir message) w)
       <-> failed (Git.git_call dir [str "commit"; str "-m"; message]) w)
   /\ (raises (outcome (Git.tag dir version) w)
       <-> failed (Git.git_call dir [str "tag"; str "-m";
                                     str "Releasing version " ++ version;
                                     str "v" ++ version]) w)
   /\ (raises (outcome (Git.push dir) w)
       <-> failed (Git.git_call dir [str "push"; str "--follow-tags"]) w))
  /\ ((outcome (Git.latestVersion dir) w = Raise (Error (str "Could not get git tags"))
       <-> failed (Git.tag_listing dir) w)
      /\ (outcome (Git.versionExists dir version) w
            = Raise (Error (str "Could not get git tags"))
          <-> failed (Git.tag_listing dir) w))
  /\ ((no_status (Git.git_call dir [str "add"; file]) w
       -> outcome (Git.add dir file) w = Ok tt)
      /\ (no_status (Git.git_call dir [str "commit"; str "-m"; message]) w
          -> outcome (Git.commit dir message) w = Ok tt)
      /\ (no_status (Git.git_call dir [str "tag"; str "-m";
                                       str "Releasing version " ++ version;
                                       str "v" ++ version]) w
          -> outcome (Git.tag dir version) w = Ok tt)
      /\ (no_status (Git.git_call dir [str "push"; str "--follow-tags"]) w
          -> outcome (Git.push dir) w = Ok tt)).
Proof.
  unfold Eff.failed, Eff.no_status. split; [|split].
  - repeat split; try (apply raises_status_only); try (apply raises_status_only).
  - rewrite outcome_latestVersion, outcome_versionExists. simpl.
    destruct (truthy_status _); [split; split; reflexivity|].
    destruct (stdout _) as [out|].
    + destruct (find _ _); split; split; discriminate.
    + split; split; discriminate.
  - unfold Git.add, Git.commit, Git.tag, Git.push.
    repeat split; intros H; rewrite outcome_status_only, H; reflexivity.
Qed.

(** C5.  When the tag listing succeeds and holds no tag, [latestVersion]
    fails: reading [replace] from [undefined] raises a [TypeError], which is
    neither of the validator's "is not semver" errors. *)
Theorem latestVersion_no_tags (dir out : jsstring) (w : World) :
  status (answer (Git.tag_listing dir) w) = Some 0%Z ->
  stdout (answer (Git.tag_listing dir) w) = Some out ->
  filter truthy_string (split_space out) = [] ->
  outcome (Git.latestVersion dir) w = Raise TypeError
  /\ (forall x, TypeError <> Error (str "Version " ++ x ++ str " is not semver"))
  /\ (forall x, TypeError <> Error (str "Existing version " ++ x ++ str " is not semver")).
Proof.
  intros Hs Ho Hn. split; [|split; discriminate].
  rewrite outcome_latestVersion. simpl. rewrite Hs, Ho. simpl.
  now rewrite (find_filter_nil _ Hn).
Qed.

Lemma latestVersion_first_entry (dir : jsstring) (v : semver) (vs : list semver)
      (w : World) :
  truthy_status (status (answer (Git.tag_listing dir) w)) = false ->
  stdout (answer (Git.tag_listing dir) w) = Some (listing_of (v :: vs)) ->
  outcome (Git.latestVersion dir) w = Ok (render v).
Proof.
  intros Hs Ho. rewrite outcome_latestVersion. simpl. rewrite Hs, Ho.
  rewrite listing_of_cons. unfold split_space.
  rewrite (@split_by_cut is_space (v_code :: render v) newline)
    by first [reflexivity | constructor; [reflexivity | apply render_no_space]].
  simpl. rewrite drop_v_cons. now rewrite N.eqb_refl.
Qed.

(** C4, as amended.  When the listing printed by a successful
    [git tag --sort=-v:refname] holds SemVer tags with a [v] prefix in
    descending SemVer order, [latestVersion] returns its first entry without
    the [v], and that is the maximum by SemVer ordering, the version the
    strip-filter-maximum resolution yields on that listing. *)
Theorem latestVersion_descending_listing (dir : jsstring) (v : semver)
        (vs : list semver) (w : World) :
  truthy_status (status (answer (Git.tag_listing dir) w)) = false ->
  stdout (answer (Git.tag_listing dir) w) = Some (listing_of (v :: vs)) ->
  StronglySorted (fun a b => le b a) (v :: vs) ->
  outcome (Git.latestVersion dir) w = Ok (render v)
  /\ Forall (fun x => le x v) (v :: vs)
  /\ resolve_spec (filter truthy_string (split_space (listing_of (v :: vs))))
     = Some (render v).
Proof.
  intros Hs Ho Hsorted. split; [|split].
  - now apply latestVersion_first_entry with (vs := vs).
  - constructor; [apply le_refl|].
    now apply StronglySorted_inv in Hsorted.
  - now apply resolve_spec_descending.
Qed.

End Adapter.

(** C10.  The transformation applied to tag names by [latestVersion] and
    [versionExists] deletes the first [v] of the string wherever it stands:
    for every [pre] without a [v], the tag [pre ++ "v" ++ post] becomes
    [pre ++ post] (later occurrences in [post] stay), and a tag without any
    [v] is returned as it is. *)
Theorem drop_v_first_occurrence (pre post : jsstring) :
  ~ In v_code pre ->
  Git.drop_v (pre ++ str "v" ++ post) = pre ++ post
  /\ Git.drop_v pre = pre.
Proof.
  intros H. split.
  - rewrite str_v. simpl. now apply drop_v_first.
  - now apply drop_v_absent.
Qed.

Lemma drop_v_first_occurrence_witness :
  Git.drop_v (str "rev1.0.0") = str "re1.0.0" /\ Git.drop_v (str "re") = str "re".
Proof.
  apply (@drop_v_first_occurrence (str "re") (str "1.0.0")).
  simpl. intros [H|[H|[]]]; discriminate H.
Defined.

(** Only the first occurrence goes: a second [v] survives. *)
Example drop_v_keeps_later_v : Git.drop_v (str "v1.0.0-dev") = str "1.0.0-dev".
Proof. reflexivity. Qed.

(* ------------------------------------------------------------------ *)
(** ** The release run *)

Section ReleaseRun.

Variable World : Type.
Variable spawnSync : Invocation -> World -> SpawnResult * World.
Variable replaceInFile : jsstring -> jsstring -> jsstring -> World -> bool * World.

Local Abbreviation run := (run spawnSync replaceInFile) (only parsing).
Local Abbreviation trace := (trace spawnSync replaceInFile) (only parsing).
Local Abbreviation outcome := (outcome spawnSync replaceInFile) (only parsing).

Lemma run_bind A B (p : Prog A) (f : A -> Prog B) (w : World) :
  run (bind p f) w =
    match run p w with
    | (tr, w1, Ok a) => let '(tr2, w2, o) := run (f a) w1 in (tr ++ tr2, w2, o)
    | (tr, w1, Raise e) => (tr, w1, Raise e)
    end.
Proof.
  revert w. induction p as [a|e|i k IH|path old new k IH]; intros w; simpl.
  - now destruct (Eff.run spawnSync replaceInFile (f a) w) as [[tr2 w2] o].
  - reflexivity.
  - destruct (spawnSync i w) as [r w1]. rewrite IH.
    destruct (Eff.run spawnSync replaceInFile (k r) w1) as [[tr w2] [a|e]];
      [|reflexivity].
    now destruct (Eff.run spawnSync replaceInFile (f a) w2) as [[tr2 w3] o].
  - destruct (replaceInFile path old new w) as [b w1]. rewrite IH.
    destruct (Eff.run spawnSync replaceInFile (k b) w1) as [[tr w2] [a|e]];
      [|reflexivity].
    now destruct (Eff.run spawnSync replaceInFile (f a) w2) as [[tr2 w3] o].
Qed.

(** Resolving the current version is one call, the tag listing. *)
Lemma run_latestVersion (d : jsstring) (w : World) :
  run (Git.latestVersion d) w =
    ([SpawnSync (Git.tag_listing d)], snd (spawnSync (Git.tag_listing d) w),
     outcome (Git.latestVersion d) w).
Proof.
  unfold Eff.outcome, Git.latestVersion. simpl.
  destruct (spawnSync (Git.tag_listing d) w) as [r w1]; simpl.
  destruct (truthy_status (status r)); [reflexivity|].
  destruct (stdout r) as [out|]; [|reflexivity].
  destruct (find truthy_string (split_space out)); reflexivity.
Qed.

(** C3.  In every release run in which the validator fails on the resolved
    current version, the run ends with the validator's error after a single
    subprocess call, the tag listing: no file is rewritten and none of
    stage, commit, tag or push is invoked. *)
Theorem release_aborts_before_mutation (c : Config) (w : World)
        (current : jsstring) (e : exn) :
  outcome (Git.latestVersion (dir c)) w = Ok current ->
  validateTransition current (target c) = Raise e ->
  run (release c) w =
    ([SpawnSync (Git.tag_listing (dir c))],
     snd (spawnSync (Git.tag_listing (dir c)) w),
     Raise e)
  /\ Forall (fun ev => mutating ev = false) (trace (release c) w).
Proof.
  intros Hcur Hval.
  assert (R : run (release c) w =
              ([SpawnSync (Git.tag_listing (dir c))],
               snd (spawnSync (Git.tag_listing (dir c)) w), Raise e)).
  { unfold release. rewrite run_bind, run_latestVersion, Hcur.
    rewrite run_bind, Hval. reflexivity. }
  split; [exact R|].
  unfold Eff.trace. rewrite R. simpl.
  constructor; [reflexivity | constructor].
Qed.

(** A failure to resolve the current version ends the run the same way. *)
Lemma release_aborts_on_resolution (c : Config) (w : World) (e : exn) :
  outcome (Git.latestVersion (dir c)) w = Raise e ->
  run (release c) w =
    ([SpawnSync (Git.tag_listing (dir c))],
     snd (spawnSync (Git.tag_listing (dir c)) w),
     Raise e).
Proof.
  intros H. unfold release. now rewrite run_bind, run_latestVersion, H.
Qed.

End ReleaseRun.

(* ------------------------------------------------------------------ *)
(** ** Concrete runs *)

Lemma release_aborts_before_mutation_witness :
  run one_tag_world const_rewrite (release (request (str "1.0.2") false)) tt =
    ([SpawnSync (Git.tag_listing (str "."))], tt,
     Raise (Error (str "Version 1.0.2 is not allowed. Use one of 1.0.1, 1.1.0, 2.0.0")))
  /\ Forall (fun ev => mutating ev = false)
       (trace one_tag_world const_rewrite (release (request (str "1.0.2") false)) tt).
Proof.
  apply (@release_aborts_before_mutation unit one_tag_world const_rewrite
           (request (str "1.0.2") false) tt (str "1.0.0")).
  - reflexivity.
  - reflexivity.
Defined.

(** The same repository and a valid target: files are rewritten and staged,
    then commit, tag and push follow, in this order. *)
Example release_minor_run :
  run one_tag_world const_rewrite (release (request (str "minor") false)) tt =
    ([SpawnSync (Git.tag_listing (str "."));
      ReplaceInFile (str "README.md") (str "1.0.0") (str "1.1.0");
      SpawnSync (Git.git_call (str ".") [str "add"; str "README.md"]);
      SpawnSync (Git.git_call (str ".")
                   [str "commit"; str "-m"; str "Releasing version 1.1.0"]);
      SpawnSync (Git.git_call (str ".")
                   [str "tag"; str "-m"; str "Releasing version 1.1.0"; str "v1.1.0"]);
      SpawnSync (Git.git_call (str ".") [str "push"; str "--follow-tags"])],
     tt, Ok (str "1.1.0")).
Proof. reflexivity. Qed.

Example release_minor_run_mutates :
  map mutating (trace one_tag_world const_rewrite (release (request (str "minor") false)) tt)
  = [false; true; true; true; true; true].
Proof. reflexivity. Qed.

Example release_dry_run :
  run one_tag_world const_rewrite (release (request (str "minor") true)) tt =
    ([SpawnSync (Git.tag_listing (str "."))], tt, Ok (str "1.1.0")).
Proof. reflexivity. Qed.

Lemma latestVersion_descending_listing_witness :
  listing_of [mkSemver 1 2 3; mkSemver 1 1 0; mkSemver 1 0 0]
    = lines [str "v1.2.3"; str "v1.1.0"; str "v1.0.0"]
  /\ outcome (listing_spawn (listing_of [mkSemver 1 2 3; mkSemver 1 1 0; mkSemver 1 0 0]))
       const_rewrite (Git.latestVersion (str ".")) tt = Ok (str "1.2.3").
Proof.
  split; [reflexivity|].
  apply (@latestVersion_descending_listing unit
           (listing_spawn (listing_of [mkSemver 1 2 3; mkSemver 1 1 0; mkSemver 1 0 0]))
           const_rewrite (str ".") (mkSemver 1 2 3)
           [mkSemver 1 1 0; mkSemver 1 0 0] tt).
  - reflexivity.
  - reflexivity.
  - repeat constructor.
Defined.

(** C4 as stated fails: on the listing [v2], [v1.0.0] (descending version
    order) the only SemVer-parseable entry is 1.0.0, yet [latestVersion]
    returns "2", which is not a SemVer. *)
Lemma latestVersion_keeps_non_semver :
  resolve_spec (filter truthy_string (split_space (lines [str "v2"; str "v1.0.0"])))
    = Some (str "1.0.0")
  /\ outcome (listing_spawn (lines [str "v2"; str "v1.0.0"])) const_rewrite
       (Git.latestVersion (str ".")) tt = Ok (str "2")
  /\ parse (str "2") = None.
Proof. repeat split. Qed.

(** [latestVersion] does no sorting of its own: the first entry wins. *)
Example latestVersion_takes_first_entry :
  outcome (listing_spawn (lines [str "v1.0.0"; str "v1.2.3"; str "v1.1.0"]))
    const_rewrite (Git.latestVersion (str ".")) tt = Ok (str "1.0.0").
Proof. reflexivity. Qed.

Lemma latestVersion_no_tags_witness :
  outcome (const_spawn silent) const_rewrite (Git.latestVersion (str ".")) tt
  = Raise TypeError.
Proof.
  apply (@latestVersion_no_tags unit (const_spawn silent) const_rewrite
           (str ".") (str "") tt).
  - reflexivity.
  - reflexivity.
  - reflexivity.
Defined.

(** C9 as stated fails for [latestVersion]: with exit status 0 and an empty
    listing it raises although the status is falsy. *)
Lemma latestVersion_raises_on_zero_status :
  ~ (raises (outcome (const_spawn silent) const_rewrite (Git.latestVersion (str ".")) tt)
     <-> failed (const_spawn silent) (Git.tag_listing (str ".")) tt).
Proof.
  intros [H _]. specialize (H I). discriminate H.
Qed.

(** When the subprocess cannot be spawned, the two reading operations fail
    on the missing output. *)
Example listing_unspawned :
  outcome (const_spawn unspawned) const_rewrite (Git.latestVersion (str ".")) tt
    = Raise TypeError
  /\ outcome (const_spawn unspawned) const_rewrite
       (Git.versionExists (str ".") (str "1.0.0")) tt = Raise TypeError.
Proof. split; reflexivity. Qed.

Lemma adapter_raises_on_status_witness :
  outcome (const_spawn unspawned) const_rewrite (Git.add (str ".") (str "README.md")) tt
    = Ok tt
  /\ outcome (const_spawn unspawned) const_rewrite (Git.push (str ".")) tt = Ok tt.
Proof.
  pose proof (@adapter_raises_on_status unit (const_spawn unspawned) const_rewrite
                (str ".") (str "README.md") (str "m") (str "1.0.1") tt) as H.
  destruct H as (_ & _ & Hadd & _ & _ & Hpush).
  split; [apply Hadd | apply Hpush]; reflexivity.
Defined.

(* ------------------------------------------------------------------ *)
(** ** More on the listing: tokens *)

Lemma all_or_exists (sep : N -> bool) (s : jsstring) :
  Forall (fun c => sep c = true) s \/ Exists (fun c => sep c = false) s.
Proof.
  induction s as [|c s [IH|IH]].
  - left. constructor.
  - destruct (sep c) eqn:E; [left; now constructor | right; now constructor].
  - right. now apply Exists_cons_tl.
Qed.

Lemma Forall_Exists_absurd (sep : N -> bool) (s : jsstring) :
  Forall (fun c => sep c = false) s -> Exists (fun c => sep c = true) s -> False.
Proof.
  intros HF HE. rewrite Forall_forall in HF. apply Exists_exists in HE.
  destruct HE as (c & Hin & Hc). specialize (HF c Hin). congruence.
Qed.

(** The output holds a token exactly when it is not all white space. *)
Lemma find_token_iff (sep : N -> bool) (s : jsstring) :
  (exists t, find truthy_string (split_by sep s) = Some t)
  <-> Exists (fun c => sep c = false) s.
Proof.
  split.
  - intros [t Ht]. destruct (all_or_exists sep s) as [Hall|Hex]; [|exact Hex].
    rewrite (find_filter_nil _ (@split_by_all_sep sep s Hall)) in Ht. discriminate.
  - induction s as [|c s IH]; intros H; [inversion H|].
    simpl. destruct (sep c) eqn:E.
    + simpl. apply IH. inversion H as [? ? Hc|? ? Hs]; subst; [congruence | exact Hs].
    + destruct (split_by sep s) as [|t ts]; simpl; eauto.
Qed.

Lemma find_token_pieces (sep : N -> bool) (s t : jsstring) :
  find truthy_string (split_by sep s) = Some t ->
  In t (filter truthy_string (split_by sep s)) /\ Forall (fun c => sep c = false) t.
Proof.
  intros H. apply find_some in H. destruct H as [Hin Ht]. split.
  - apply filter_In. now split.
  - pose proof (split_by_pieces sep s) as P. rewrite Forall_forall in P. now apply P.
Qed.

Lemma token_pieces (sep : N -> bool) (s t : jsstring) :
  In t (filter truthy_string (split_by sep s)) -> Forall (fun c => sep c = false) t.
Proof.
  intros H. apply filter_In in H. destruct H as [Hin _].
  pose proof (split_by_pieces sep s) as P. rewrite Forall_forall in P. now apply P.
Qed.

(** The first token is found behind any leading white space. *)
Lemma find_first_token (ws t rest : jsstring) :
  Forall (fun c => is_space c = true) ws -> tag_like t -> token_end rest ->
  find truthy_string (split_space (ws ++ t ++ rest)) = Some t.
Proof.
  intros Hws [Hne Ht] Hrest. unfold split_space.
  induction ws as [|c ws IH]; simpl.
  - destruct rest as [|c rest].
    + rewrite List.app_nil_r, split_by_clean by exact Ht.
      destruct t; [now elim Hne | reflexivity].
    + rewrite split_by_cut by assumption.
      destruct t; [now elim Hne | reflexivity].
  - inversion Hws as [|? ? Hc Hws']; subst. rewrite Hc. simpl. now apply IH.
Qed.

Lemma lines_cons (t : jsstring) (ts : list jsstring) :
  lines (t :: ts) = t ++ newline :: lines ts.
Proof. unfold lines. simpl. now rewrite <- app_assoc. Qed.

(** A listing of tag names, one per line, splits back into these names. *)
Lemma tokens_of_lines (ts : list jsstring) :
  Forall tag_like ts -> filter truthy_string (split_space (lines ts)) = ts.
Proof.
  induction ts as [|t ts IH]; intros H; [reflexivity|].
  inversion H as [|? ? [Hne Ht] Hts]; subst.
  rewrite lines_cons. unfold split_space.
  rewrite split_by_cut by first [exact Ht | reflexivity].
  destruct t as [|c t]; [now elim Hne|]. simpl. f_equal. now apply IH.
Qed.

Lemma drop_v_Forall (P : N -> Prop) (s : jsstring) :
  Forall P s -> Forall P (Git.drop_v s).
Proof.
  induction s as [|c s IH]; intros H; [exact H|].
  inversion H as [|? ? Hc Hs]; subst. rewrite drop_v_cons.
  destruct (v_code =? c)%N; [exact Hs | constructor; auto].
Qed.

Lemma includes_true_iff (xs : list jsstring) (v : jsstring) :
  includes xs v = true <-> In v xs.
Proof.
  unfold includes. rewrite existsb_exists. split.
  - intros (x & Hin & E). apply streq_true_iff in E. now subst.
  - intros H. exists v. split; [exact H | apply streq_refl].
Qed.

Lemma includes_false_iff (xs : list jsstring) (v : jsstring) :
  includes xs v = false <-> ~ In v xs.
Proof.
  rewrite <- includes_true_iff. destruct (includes xs v); split; congruence.
Qed.

Lemma render_injective (a b : semver) : render a = render b -> a = b.
Proof.
  intros H. pose proof (parse_render a) as Ha. rewrite H, parse_render in Ha.
  now injection Ha.
Qed.

Lemma render_no_v (v : semver) : ~ In v_code (render v).
Proof.
  apply Forall_not_In. unfold render.
  repeat (apply Forall_app; split);
    solve [apply uint_codes_no_v | repeat constructor; discriminate].
Qed.

(* ------------------------------------------------------------------ *)
(** ** More on the Git adapter *)

Section AdapterMore.

Variable World : Type.
Variable spawnSync : Invocation -> World -> SpawnResult * World.
Variable replaceInFile : jsstring -> jsstring -> jsstring -> World -> bool * World.

Local Abbreviation trace := (trace spawnSync replaceInFile) (only parsing).
Local Abbreviation outcome := (outcome spawnSync replaceInFile) (only parsing).
Local Abbreviation answer := (answer spawnSync) (only parsing).

(** X1.  [latestVersion] returns a value exactly when the exit status is
    falsy, the output is a string and that string holds a code unit that is not
    white space; in every other case it raises. *)
Theorem latestVersion_returns_iff (dir : jsstring) (w : World) :
  (exists x, outcome (Git.latestVersion dir) w = Ok x)
  <-> truthy_status (status (answer (Git.tag_listing dir) w)) = false
      /\ exists out, stdout (answer (Git.tag_listing dir) w) = Some out
                     /\ Exists (fun c => is_space c = false) out.
Proof.
  rewrite outcome_latestVersion. simpl.
  destruct (truthy_status _).
  - split; [intros [x H]; discriminate H | intros [H _]; discriminate H].
  - destruct (stdout _) as [out|].
    + split.
      * intros [x H]. split; [reflexivity|]. exists out. split; [reflexivity|].
        apply find_token_iff. fold split_space.
        destruct (find truthy_string (split_space out)) as [t|]; [eauto | discriminate H].
      * intros [_ (out' & E & Hex)]. injection E as <-.
        apply find_token_iff in Hex. destruct Hex as [t Ht].
        unfold split_space. rewrite Ht. eauto.
    + split; [intros [x H]; discriminate H | intros [_ (out & H & _)]; discriminate H].
Qed.

(** X2.  [latestVersion] looks at the first token only: behind any leading
    white space, and whatever follows the token, the result is that token
    without its first [v]. *)
Theorem latestVersion_first_token (dir ws t rest : jsstring) (w : World) :
  truthy_status (status (answer (Git.tag_listing dir) w)) = false ->
  stdout (answer (Git.tag_listing dir) w) = Some (ws ++ t ++ rest) ->
  Forall (fun c => is_space c = true) ws -> tag_like t -> token_end rest ->
  outcome (Git.latestVersion dir) w = Ok (Git.drop_v t).
Proof.
  intros Hs Ho Hws Ht Hrest. rewrite outcome_latestVersion. simpl.
  rewrite Hs, Ho. now rewrite (@find_first_token ws t rest Hws Ht Hrest).
Qed.

(** X3.  A version returned by [latestVersion] never holds white space. *)
Theorem latestVersion_spaceless (dir x : jsstring) (w : World) :
  outcome (Git.latestVersion dir) w = Ok x -> spaceless x.
Proof.
  rewrite outcome_latestVersion. simpl.
  destruct (truthy_status _); [discriminate|].
  destruct (stdout _) as [out|]; [|discriminate].
  destruct (find truthy_string (split_space out)) as [t|] eqn:F; [|discriminate].
  intros H. injection H as <-. apply drop_v_Forall.
  exact (proj2 (@find_token_pieces is_space out t F)).
Qed.

(** X4.  On a successful listing that is empty or all white space,
    [versionExists] answers [false] for every version; it does not raise. *)
Theorem versionExists_blank_listing (dir version out : jsstring) (w : World) :
  truthy_status (status (answer (Git.tag_listing dir) w)) = false ->
  stdout (answer (Git.tag_listing dir) w) = Some out ->
  Forall (fun c => is_space c = true) out ->
  outcome (Git.versionExists dir version) w = Ok false.
Proof.
  intros Hs Ho Hblank. rewrite outcome_versionExists. simpl. rewrite Hs, Ho.
  unfold split_space. now rewrite (@split_by_all_sep is_space out Hblank).
Qed.

(** X5.  On a successful listing of tag names, one per line, [versionExists]
    answers [true] exactly when one of the listed names, with its first [v]
    removed, is the version asked for. *)
Theorem versionExists_listed (dir version : jsstring) (ts : list jsstring) (w : World) :
  truthy_status (status (answer (Git.tag_listing dir) w)) = false ->
  stdout (answer (Git.tag_listing dir) w) = Some (lines ts) ->
  Forall tag_like ts ->
  exists b, outcome (Git.versionExists dir version) w = Ok b
            /\ (b = true <-> exists t, In t ts /\ Git.drop_v t = version).
Proof.
  intros Hs Ho Hts. rewrite outcome_versionExists. simpl. rewrite Hs, Ho.
  rewrite (tokens_of_lines Hts). eexists. split; [reflexivity|].
  rewrite includes_true_iff, in_map_iff. split; intros (t & A & B); eauto.
Qed.

(** X6.  On a successful listing of [v]-prefixed SemVer tags, [versionExists]
    answers [true] for a SemVer exactly when that SemVer is among the tags, and
    answers [false] when asked with the tag name (the [v] included). *)
Theorem versionExists_semver_listing (dir : jsstring) (x : semver) (vs : list semver)
        (w : World) :
  truthy_status (status (answer (Git.tag_listing dir) w)) = false ->
  stdout (answer (Git.tag_listing dir) w) = Some (listing_of vs) ->
  (outcome (Git.versionExists dir (render x)) w = Ok true <-> In x vs)
  /\ outcome (Git.versionExists dir (str "v" ++ render x)) w = Ok false.
Proof.
  intros Hs Ho. rewrite !outcome_versionExists. simpl. rewrite Hs, Ho.
  rewrite tags_of_listing, map_map.
  assert (E : map (fun y => Git.drop_v (v_code :: render y)) vs = map render vs).
  { apply map_ext. intros y. rewrite drop_v_cons. now rewrite N.eqb_refl. }
  rewrite E. split.
  - split.
    + intros H. injection H as H. apply includes_true_iff, in_map_iff in H.
      destruct H as (y & Hy & Hin). apply render_injective in Hy. now subst.
    + intros H. f_equal. apply includes_true_iff, in_map_iff. eauto.
  - f_equal. apply includes_false_iff. intros H. apply in_map_iff in H.
    destruct H as (y & Hy & _). apply (@render_no_v y). rewrite Hy. now left.
Qed.

(** X7.  Whatever [latestVersion] returns, [versionExists] finds in the same
    repository. *)
Theorem versionExists_after_latestVersion (dir x : jsstring) (w : World) :
  outcome (Git.latestVersion dir) w = Ok x ->
  outcome (Git.versionExists dir x) w = Ok true.
Proof.
  rewrite outcome_latestVersion, outcome_versionExists. simpl.
  destruct (truthy_status _); [discriminate|].
  destruct (stdout _) as [out|]; [|discriminate].
  destruct (find truthy_string (split_space out)) as [t|] eqn:F; [|discriminate].
  intros H. injection H as <-. f_equal.
  apply includes_true_iff, in_map. exact (proj1 (@find_token_pieces is_space out t F)).
Qed.

(** X8.  [versionExists] never answers [true] for a version that holds white
    space. *)
Theorem versionExists_spaced_version (dir version out : jsstring) (w : World) :
  truthy_status (status (answer (Git.tag_listing dir) w)) = false ->
  stdout (answer (Git.tag_listing dir) w) = Some out ->
  Exists (fun c => is_space c = true) version ->
  outcome (Git.versionExists dir version) w = Ok false.
Proof.
  intros Hs Ho Hsp. rewrite outcome_versionExists. simpl. rewrite Hs, Ho.
  f_equal. apply includes_false_iff. intros H. apply in_map_iff in H.
  destruct H as (t & <- & Hin).
  apply (@Forall_Exists_absurd is_space (Git.drop_v t)); [|exact Hsp].
  apply drop_v_Forall. exact (@token_pieces is_space out t Hin).
Qed.

(** X9.  The name under which [tag] tags a version is read back as that
    version: when the last argument of the call [tag] makes for X is the first
    line of a successful listing, [latestVersion] returns X and
    [versionExists] finds X. *)
Theorem tag_name_read_back (dir X rest : jsstring) (i : Invocation) (w0 w : World) :
  trace (Git.tag dir X) w0 = [SpawnSync i] ->
  spaceless X ->
  truthy_status (status (answer (Git.tag_listing dir) w)) = false ->
  stdout (answer (Git.tag_listing dir) w) = Some (last (args i) [] ++ newline :: rest) ->
  outcome (Git.latestVersion dir) w = Ok X
  /\ outcome (Git.versionExists dir X) w = Ok true.
Proof.
  intros Hi HX Hs Ho. rewrite tag_invocation in Hi. injection Hi as <-.
  change (last _ _) with (v_code :: X) in Ho.
  assert (L : outcome (Git.latestVersion dir) w = Ok X).
  { change X with (if (v_code =? v_code)%N then X else v_code :: Git.drop_v X).
    rewrite <- drop_v_cons.
    apply (@latestVersion_first_token dir [] (v_code :: X) (newline :: rest) w);
      try assumption.
    - constructor.
    - split; [discriminate | constructor; [reflexivity | exact HX]].
    - reflexivity. }
  split; [exact L | now apply versionExists_after_latestVersion].
Qed.

(** X10.  [versionExists] does not depend on the order of the listing: two
    successful listings of the same tag names in different orders give the same
    answer. *)
Theorem versionExists_order_irrelevant (dir version : jsstring)
        (ts1 ts2 : list jsstring) (w1 w2 : World) :
  truthy_status (status (answer (Git.tag_listing dir) w1)) = false ->
  truthy_status (status (answer (Git.tag_listing dir) w2)) = false ->
  stdout (answer (Git.tag_listing dir) w1) = Some (lines ts1) ->
  stdout (answer (Git.tag_listing dir) w2) = Some (lines ts2) ->
  Forall tag_like ts1 -> Permutation ts1 ts2 ->
  outcome (Git.versionExists dir version) w1 = outcome (Git.versionExists dir version) w2.
Proof.
  intros Hs1 Hs2 Ho1 Ho2 Hts HP. rewrite !outcome_versionExists. simpl.
  rewrite Hs1, Hs2, Ho1, Ho2.
  rewrite (tokens_of_lines Hts), (tokens_of_lines (Permutation_Forall HP Hts)).
  f_equal. apply eq_iff_eq_true. rewrite !includes_true_iff.
  pose proof (Permutation_map Git.drop_v HP) as HP'.
  split; apply Permutation_in; [exact HP' | exact (Permutation_sym HP')].
Qed.

(** X11.  Each of [add], [commit], [push], [versionExists] and
    [latestVersion] makes exactly one subprocess call, whatever the subprocess
    answers: [git add <file>], [git commit -m <message>],
    [git push --follow-tags], and [git tag --sort=-v:refname] for the two
    readers, in the adapter's directory, with the file and the message passed
    as one argument each. *)
Theorem adapter_single_call (dir file message version : jsstring) (w : World) :
  trace (Git.add dir file) w
    = [SpawnSync (mkInvocation (str "git") [str "add"; file] dir None)]
  /\ trace (Git.commit dir message) w
    = [SpawnSync (mkInvocation (str "git") [str "commit"; str "-m"; message] dir None)]
  /\ trace (Git.push dir) w
    = [SpawnSync (mkInvocation (str "git") [str "push"; str "--follow-tags"] dir None)]
  /\ trace (Git.versionExists dir version) w
    = [SpawnSync (mkInvocation (str "git") [str "tag"; str "--sort=-v:refname"] dir
                    (Some (str "utf8")))]
  /\ trace (Git.latestVersion dir) w
    = [SpawnSync (mkInvocation (str "git") [str "tag"; str "--sort=-v:refname"] dir
                    (Some (str "utf8")))].
Proof.
  unfold Git.add, Git.commit, Git.push, Git.versionExists, Git.latestVersion.
  rewrite !trace_Spawn. repeat split.
  1-3: destruct (truthy_status _); reflexivity.
  - destruct (truthy_status _); [reflexivity|]. destruct (stdout _); reflexivity.
  - destruct (truthy_status _); [reflexivity|].
    destruct (stdout _) as [out|]; [|reflexivity].
    destruct (find _ _); reflexivity.
Qed.

End AdapterMore.

(* ------------------------------------------------------------------ *)
(** ** Concrete runs of the readers *)

Ltac some_space :=
  repeat first [ apply Exists_cons_hd; reflexivity | apply Exists_cons_tl ].

Ltac tag_names :=
  repeat first [ apply Forall_nil
               | apply Forall_cons
               | split; [discriminate | unfold spaceless]
               | reflexivity ].

Lemma latestVersion_first_token_witness :
  outcome (listing_spawn (str " " ++ str "v1.2.3" ++ str " v1.0.0")) const_rewrite
    (Git.latestVersion (str ".")) tt = Ok (str "1.2.3").
Proof.
  apply (@latestVersion_first_token unit
           (listing_spawn (str " " ++ str "v1.2.3" ++ str " v1.0.0")) const_rewrite
           (str ".") (str " ") (str "v1.2.3") (str " v1.0.0") tt).
  - reflexivity.
  - reflexivity.
  - repeat constructor.
  - tag_names.
  - reflexivity.
Defined.

Lemma latestVersion_spaceless_witness : spaceless (str "1.0.0").
Proof.
  apply (@latestVersion_spaceless unit one_tag_world const_rewrite (str ".")
           (str "1.0.0") tt).
  reflexivity.
Defined.

Lemma versionExists_blank_listing_witness :
  outcome (listing_spawn (str "  ")) const_rewrite
    (Git.versionExists (str ".") (str "1.0.0")) tt = Ok false.
Proof.
  apply (@versionExists_blank_listing unit (listing_spawn (str "  ")) const_rewrite
           (str ".") (str "1.0.0") (str "  ") tt).
  - reflexivity.
  - reflexivity.
  - repeat constructor.
Defined.

Lemma versionExists_listed_witness :
  exists b,
    outcome (listing_spawn (lines [str "v1.0.0"; str "rev2"])) const_rewrite
      (Git.versionExists (str ".") (str "re2")) tt = Ok b
    /\ (b = true <->
        exists t, In t [str "v1.0.0"; str "rev2"] /\ Git.drop_v t = str "re2").
Proof.
  apply (@versionExists_listed unit (listing_spawn (lines [str "v1.0.0"; str "rev2"]))
           const_rewrite (str ".") (str "re2") [str "v1.0.0"; str "rev2"] tt).
  - reflexivity.
  - reflexivity.
  - tag_names.
Defined.

Lemma versionExists_semver_listing_witness :
  (outcome (listing_spawn (listing_of [mkSemver 1 2 3; mkSemver 1 0 0])) const_rewrite
     (Git.versionExists (str ".") (render (mkSemver 1 0 0))) tt = Ok true
   <-> In (mkSemver 1 0 0) [mkSemver 1 2 3; mkSemver 1 0 0])
  /\ outcome (listing_spawn (listing_of [mkSemver 1 2 3; mkSemver 1 0 0])) const_rewrite
       (Git.versionExists (str ".") (str "v" ++ render (mkSemver 1 0 0))) tt = Ok false.
Proof.
  apply (@versionExists_semver_listing unit
           (listing_spawn (listing_of [mkSemver 1 2 3; mkSemver 1 0 0])) const_rewrite
           (str ".") (mkSemver 1 0 0) [mkSemver 1 2 3; mkSemver 1 0 0] tt).
  - reflexivity.
  - reflexivity.
Defined.

Lemma versionExists_after_latestVersion_witness :
  outcome one_tag_world const_rewrite (Git.versionExists (str ".") (str "1.0.0")) tt
  = Ok true.
Proof.
  apply (@versionExists_after_latestVersion unit one_tag_world const_rewrite
           (str ".") (str "1.0.0") tt).
  reflexivity.
Defined.

Lemma versionExists_spaced_version_witness :
  outcome (listing_spawn (str "v1.0 .0")) const_rewrite
    (Git.versionExists (str ".") (str "1.0 .0")) tt = Ok false.
Proof.
  apply (@versionExists_spaced_version unit (listing_spawn (str "v1.0 .0"))
           const_rewrite (str ".") (str "1.0 .0") (str "v1.0 .0") tt).
  - reflexivity.
  - reflexivity.
  - some_space.
Defined.

Lemma tag_name_read_back_witness :
  outcome (listing_spawn (lines [str "v1.1.0"; str "v1.0.0"])) const_rewrite
    (Git.latestVersion (str ".")) tt = Ok (str "1.1.0")
  /\ outcome (listing_spawn (lines [str "v1.1.0"; str "v1.0.0"])) const_rewrite
       (Git.versionExists (str ".") (str "1.1.0")) tt = Ok true.
Proof.
  apply (@tag_name_read_back unit
           (listing_spawn (lines [str "v1.1.0"; str "v1.0.0"])) const_rewrite
           (str ".") (str "1.1.0") (lines [str "v1.0.0"])
           (Git.git_call (str ".")
              [str "tag"; str "-m"; str "Releasing version 1.1.0"; str "v1.1.0"])
           tt tt).
  - reflexivity.
  - repeat constructor.
  - reflexivity.
  - reflexivity.
Defined.

Lemma versionExists_order_irrelevant_witness :
  outcome (two_listings (lines [str "v1.0.0"; str "v1.1.0"])
                        (lines [str "v1.1.0"; str "v1.0.0"]))
    (@rewrite_all bool) (Git.versionExists (str ".") (str "1.0.0")) true
  = outcome (two_listings (lines [str "v1.0.0"; str "v1.1.0"])
                          (lines [str "v1.1.0"; str "v1.0.0"]))
      (@rewrite_all bool) (Git.versionExists (str ".") (str "1.0.0")) false.
Proof.
  apply (@versionExists_order_irrelevant bool
           (two_listings (lines [str "v1.0.0"; str "v1.1.0"])
                         (lines [str "v1.1.0"; str "v1.0.0"]))
           (@rewrite_all bool) (str ".") (str "1.0.0")
           [str "v1.0.0"; str "v1.1.0"] [str "v1.1.0"; str "v1.0.0"] true false).
  - reflexivity.
  - reflexivity.
  - reflexivity.
  - reflexivity.
  - tag_names.
  - apply perm_swap.
Defined.
